(** * MachTaskSelfWrapper

    A verification development for the two files of the wrapper,

      Sources/MachTaskSelfWrapper/include/MachTaskSelf.h
      Sources/MachTaskSelfWrapper/MachTaskSelf.c

    whose only function is

      mach_port_t get_current_task_port(void) { return mach_task_self_; }

    The C function is embedded as a computation over an explicit process
    state: a computation takes the state of the calling process and gives a
    result, the state after it and the memory events it performed, or a
    crash. *)

From Stdlib Require Import ZArith List String Bool Lia.
From stdpp Require Import base option list gmap relations.
Import ListNotations.
Local Open Scope Z_scope.

(** ** What the wrapper takes from <mach/mach.h> *)

(** [mach_port_t] is the kernel's port-name type, an unsigned integer. *)
Definition mach_port_t : Type := Z.

Section MachHeaders.

(** The kernel headers are the host's and not files of the repository, so
    the width in bits of [mach_port_t] is left open. *)
Variable port_bits : Z.


(** Modelled from the spec: the null name, zero (the spec's valid handle is
    "non-zero"). It is [MACH_PORT_NULL] of the host's <mach/port.h>, which is
    not among the repository's files. *)
Definition MACH_PORT_NULL : mach_port_t := 0.

(** Modelled from the spec: the dead name, all bits of the handle set,
    [(mach_port_name_t) ~0] in the host's <mach/port.h>. *)
Definition MACH_PORT_DEAD : mach_port_t := Z.lnot 0 mod 2 ^ port_bits.

(** Modelled from the spec: "non-zero / well-formed according to the host
    operating system's definition of a valid task handle". For the host a
    name is valid when it is neither the null name nor the dead name,
    [MACH_PORT_VALID] of <mach/port.h>. *)
Definition MACH_PORT_VALID (name : mach_port_t) : bool :=
  negb (name =? MACH_PORT_NULL) && negb (name =? MACH_PORT_DEAD).

End MachHeaders.

(** ** The state of a process *)

(** [mach_task_self_] is the object the header declares
    ([extern mach_port_t mach_task_self_;]); the kernel interface library sets
    it when the process starts. [memory] is every other cell of the address
    space, by address; an address outside its domain is not mapped. *)
Record proc_state : Type := ProcState {
  mach_task_self_ : mach_port_t;
  memory : gmap Z Z;
}.

(** The objects a C expression can designate. *)
Inductive lvalue : Type :=
| extern_mach_task_self_
| cell (a : Z).

(** What a computation does to memory, in program order. *)
Inductive event : Type :=
| Read (l : lvalue) (v : Z)
| Write (l : lvalue) (v : Z)
| Alloc (a : Z).

Definition trace : Type := list event.

Inductive fault : Type :=
| BadAccess (a : Z).

Inductive outcome (A : Type) : Type :=
| Ok (a : A) (s : proc_state) (t : trace)
| Crash (f : fault) (t : trace).

Arguments Ok {A} a s t.
Arguments Crash {A} f t.

(** ** Computations *)

Definition C (A : Type) : Type := proc_state -> outcome A.

Definition run {A : Type} (m : C A) (s : proc_state) : outcome A := m s.

Definition ret {A : Type} (a : A) : C A :=
  fun s => Ok a s [].

Definition bind {A B : Type} (m : C A) (k : A -> C B) : C B :=
  fun s =>
    match m s with
    | Ok a s1 t1 =>
        match k a s1 with
        | Ok b s2 t2 => Ok b s2 (t1 ++ t2)
        | Crash f t2 => Crash f (t1 ++ t2)
        end
    | Crash f t1 => Crash f t1
    end.

Notation "x <- m ;; k" := (bind m (fun x => k))
  (at level 100, m at next level, right associativity).

(** Reading an object: the extern is always there, a cell must be mapped. *)
Definition load (l : lvalue) : C Z :=
  fun s =>
    match l with
    | extern_mach_task_self_ =>
        Ok (mach_task_self_ s) s [Read l (mach_task_self_ s)]
    | cell a =>
        match memory s !! a with
        | Some v => Ok v s [Read l v]
        | None => Crash (BadAccess a) []
        end
    end.

(** Assigning to an object. *)
Definition store (l : lvalue) (v : Z) : C unit :=
  fun s =>
    match l with
    | extern_mach_task_self_ =>
        Ok tt (ProcState v (memory s)) [Write l v]
    | cell a =>
        match memory s !! a with
        | Some _ => Ok tt (ProcState (mach_task_self_ s) (<[a := v]> (memory s))) [Write l v]
        | None => Crash (BadAccess a) []
        end
    end.

(** Mapping a new cell, as an allocator does: the address is one the process
    does not use yet. *)
Definition alloc : C Z :=
  fun s =>
    let a := fresh (dom (memory s)) in
    Ok a (ProcState (mach_task_self_ s) (<[a := 0]> (memory s))) [Alloc a].

(** ** MachTaskSelf.c *)

(** [mach_port_t get_current_task_port(void) { return mach_task_self_; }] *)
Definition get_current_task_port : C mach_port_t :=
  v <- load extern_mach_task_self_ ;;
  ret v.

(** The parts of an outcome. *)
Definition returned {A : Type} (o : outcome A) : option A :=
  match o with Ok a _ _ => Some a | Crash _ _ => None end.

Definition final_state {A : Type} (o : outcome A) : option proc_state :=
  match o with Ok _ s _ => Some s | Crash _ _ => None end.

Definition events {A : Type} (o : outcome A) : trace :=
  match o with Ok _ _ t => t | Crash _ t => t end.

Definition is_read (e : event) : bool :=
  match e with Read _ _ => true | _ => false end.

Definition is_write (e : event) : bool :=
  match e with Write _ _ => true | _ => false end.

Definition is_alloc (e : event) : bool :=
  match e with Alloc _ => true | _ => false end.

(** ** MachTaskSelf.h *)

(** The types the two files name. *)
Inductive ctype : Type :=
| Tvoid
| Tmach_port_t.

(** A function declarator: [result name(params)]. A parameter list written
    [(void)] is the empty one. *)
Record prototype : Type := Prototype {
  fn_name : string;
  fn_params : list ctype;
  fn_result : ctype;
}.

(** The header's declarations:
    [mach_port_t get_current_task_port(void);] *)
Definition MachTaskSelf_h : list prototype :=
  [ Prototype "get_current_task_port" [] Tmach_port_t ].





#[global] Instance ctype_eq_dec : EqDecision ctype.
Proof. solve_decision. Defined.

#[global] Instance prototype_eq_dec : EqDecision prototype.
Proof. solve_decision. Defined.



(** ** Reading the object without the wrapper *)

(** A C caller that sees the kernel headers writes the expression
    [mach_task_self_] where it needs the handle: one read of the object, its
    value used as it is. This is the behaviour the wrapper is compared
    with. *)
Definition mach_task_self_direct : C mach_port_t :=
  fun s => Ok (mach_task_self_ s) s [Read extern_mach_task_self_ (mach_task_self_ s)].

(** ** A process that calls the wrapper over its lifetime *)

Inductive action : Type :=
| call_accessor
| other (k : C unit).

(** The values the calls of the accessor return, in order, while the process
    runs [acts] from [s]. A crash ends the process. *)
Fixpoint observed (acts : list action) (s : proc_state) : list mach_port_t :=
  match acts with
  | [] => []
  | call_accessor :: rest =>
      match run get_current_task_port s with
      | Ok v s' _ => v :: observed rest s'
      | Crash _ _ => []
      end
  | other k :: rest =>
      match run k s with
      | Ok _ s' _ => observed rest s'
      | Crash _ _ => []
      end
  end.

(** A computation that leaves the process its task identity. *)
Definition keeps_task_identity (k : C unit) : Prop :=
  forall s u s' t, run k s = Ok u s' t -> mach_task_self_ s' = mach_task_self_ s.

Definition action_keeps_task_identity (a : action) : Prop :=
  match a with
  | call_accessor => True
  | other k => keeps_task_identity k
  end.

(** The actions of one process: none of them changes the ambient handle. *)
Definition same_process (acts : list action) : Prop :=
  Forall action_keeps_task_identity acts.

(** ** Threads *)

(** A thread's code as the sequence of its memory operations: each [Atomic]
    step is one operation on the shared state, and threads interleave
    between steps. *)
Inductive prog (A : Type) : Type :=
| Return (a : A)
| Atomic {X : Type} (op : C X) (k : X -> prog A).

Arguments Return {A} a.
Arguments Atomic {A X} op k.

Fixpoint denote {A : Type} (p : prog A) : C A :=
  match p with
  | Return a => ret a
  | Atomic op k => x <- op ;; denote (k x)
  end.

(** The body of [get_current_task_port], step by step. *)
Definition get_current_task_port_steps : prog mach_port_t :=
  Atomic (load extern_mach_task_self_) (fun v => Return v).

Definition result_of {A : Type} (p : prog A) : option A :=
  match p with
  | Return a => Some a
  | Atomic _ _ => None
  end.

(** One step of a thread on the shared state. A thread that has returned
    takes no step, and neither does one whose operation crashes. *)
Definition thread_step {A : Type} (p : prog A) (s : proc_state)
  : option (prog A * proc_state * trace) :=
  match p with
  | Return _ => None
  | Atomic op k =>
      match run op s with
      | Ok x s' t => Some (k x, s', t)
      | Crash _ _ => None
      end
  end.

(** The threads of a process, the state they share, and the memory events so
    far, each with the thread that performed it. *)
Record system : Type := System {
  shared : proc_state;
  threads : list (prog mach_port_t);
  history : list (nat * event);
}.

(** Thread [i] takes a step. No premise looks at another thread. *)
Inductive step (i : nat) : system -> system -> Prop :=
| step_thread (sys : system) (p p' : prog mach_port_t) (s' : proc_state) (t : trace) :
    threads sys !! i = Some p ->
    thread_step p (shared sys) = Some (p', s', t) ->
    step i sys (System s' (<[i := p']> (threads sys)) (history sys ++ map (pair i) t)).

Definition sched (sys sys' : system) : Prop :=
  exists i, step i sys sys'.

(** [n] threads, each about to call the accessor. *)
Definition concurrent_calls (s : proc_state) (n : nat) : system :=
  System s (replicate n get_current_task_port_steps) [].

Definition location (e : event) : lvalue :=
  match e with
  | Read l _ => l
  | Write l _ => l
  | Alloc a => cell a
  end.

#[global] Instance lvalue_eq_dec : EqDecision lvalue.
Proof. solve_decision. Defined.

(** Two events race when different threads performed them on the same object
    and one of them is not a read. *)
Definition conflict (x y : nat * event) : bool :=
  negb (Nat.eqb (fst x) (fst y))
  && bool_decide (location (snd x) = location (snd y))
  && (negb (is_read (snd x)) || negb (is_read (snd y))).

Definition race_free (h : list (nat * event)) : Prop :=
  forall x y, In x h -> In y h -> conflict x y = false.

(** What holds of every system reached from [concurrent_calls s n]: the
    shared state is still [s], a thread is either about to read or has
    returned the handle of [s], and every event so far is a read. *)
Definition calls_inv (s : proc_state) (sys : system) : Prop :=
  shared sys = s
  /\ Forall (fun p => p = get_current_task_port_steps \/ p = Return (mach_task_self_ s))
       (threads sys)
  /\ Forall (fun x => is_read (snd x) = true) (history sys).

(** ** The header under the preprocessor *)

(** MachTaskSelf.h is wrapped in an include guard:

      #ifndef MachTaskSelf_h
      #define MachTaskSelf_h
      #include <mach/mach.h>
      mach_port_t get_current_task_port(void);
      #endif

    The preprocessor is followed through the set of macro names defined so
    far; including a header gives the declarations it contributes to the
    translation unit and the macros defined after it. *)
Definition guard_macro : string := "MachTaskSelf_h".

Section Preprocessor.

(** The host's <mach/mach.h> is not a file of the repository: what it
    declares, and which macros it leaves defined, are left open. *)
Variable host_decl : Type.
Variable mach_mach_h : gset string -> list host_decl * gset string.

(** A declaration of the translation unit: one of the host's, or a function
    prototype of the wrapper. *)
Inductive item : Type :=
| host_item (d : host_decl)
| function_item (p : prototype).

Definition include_MachTaskSelf_h (macros : gset string) : list item * gset string :=
  if decide (guard_macro ∈ macros) then ([], macros)
  else
    let '(decls, macros') := mach_mach_h ({[ guard_macro ]} ∪ macros) in
    (map host_item decls ++ map function_item MachTaskSelf_h, macros').

(** [#include "MachTaskSelf.h"] written [n] times in a row. *)
Fixpoint include_times (n : nat) (macros : gset string) : list item * gset string :=
  match n with
  | O => ([], macros)
  | S n' =>
      let '(d1, m1) := include_MachTaskSelf_h macros in
      let '(d2, m2) := include_times n' m1 in
      (d1 ++ d2, m2)
  end.


(** The host's header does not undefine the wrapper's guard. *)
Definition keeps_guard : Prop :=
  forall macros : gset string,
    guard_macro ∈ macros -> guard_macro ∈ snd (mach_mach_h macros).

End Preprocessor.

Arguments host_item {host_decl} d.
Arguments function_item {host_decl} p.

(** ** Counting the steps of concurrent calls *)

(** What holds after [k] steps from [concurrent_calls s n]: on top of
    [calls_inv], the history has [k] events, no thread has two of them, and
    the threads with an event are those that have returned. *)
Definition steps_inv (s : proc_state) (n k : nat) (sys : system) : Prop :=
  calls_inv s sys
  /\ length (threads sys) = n
  /\ length (history sys) = k
  /\ NoDup (map fst (history sys))
  /\ (forall i : nat,
        i ∈ map fst (history sys)
        <-> exists v : mach_port_t, threads sys !! i = Some (Return v)).

(** ** The host's guarantee *)


(** ** Theorems *)

Example run_example :
  run get_current_task_port (ProcState 259 {[ 4096 := 7 ]})
  = Ok 259 (ProcState 259 {[ 4096 := 7 ]}) [Read extern_mach_task_self_ 259].
Proof. reflexivity. Qed.

Example alloc_example :
  returned (run (a <- alloc ;; _ <- store (cell a) 5 ;; load (cell a)) (ProcState 259 ∅)) = Some 5.
Proof. vm_compute. reflexivity. Qed.

Example denote_steps : denote get_current_task_port_steps = get_current_task_port.
Proof. reflexivity. Qed.

(** *** The call on its own *)

(** The outcome of a call, computed once for the proofs below. *)
Lemma run_get_current_task_port (s : proc_state) :
  run get_current_task_port s
  = Ok (mach_task_self_ s) s [Read extern_mach_task_self_ (mach_task_self_ s)].
Proof. reflexivity. Qed.

Ltac call_accessor_in_goal := rewrite ?run_get_current_task_port; cbn [returned final_state events].

(** C2: in every process state the accessor performs exactly one memory
    event, a read of [mach_task_self_], and returns the value read as it is:
    the value is the one the state holds, nothing is computed from it and
    nothing is stored (the state after the call is the state before it). *)
Theorem accessor_single_direct_read (s : proc_state) :
  exists v : mach_port_t,
    events (run get_current_task_port s) = [Read extern_mach_task_self_ v]
    /\ v = mach_task_self_ s
    /\ returned (run get_current_task_port s) = Some v
    /\ final_state (run get_current_task_port s) = Some s.
Proof.
  exists (mach_task_self_ s). call_accessor_in_goal. repeat split.
Qed.

(** C3: a call has no side effect. It returns with the state of the process
    equal to the state before the call, its events hold no write and no
    allocation, and the set of mapped addresses is the same. *)
Theorem accessor_no_side_effect (s : proc_state) :
  exists (v : mach_port_t) (s' : proc_state) (t : trace),
    run get_current_task_port s = Ok v s' t
    /\ s' = s
    /\ Forall (fun e => is_write e = false /\ is_alloc e = false) t
    /\ dom (memory s') = dom (memory s).
Proof.
  eexists _, _, _. split; [apply run_get_current_task_port|].
  split; [reflexivity|]. split; [|reflexivity].
  repeat constructor.
Qed.

(** C4: a call never fails. In every process state it returns a value, and
    no state makes it crash. *)
Theorem accessor_always_succeeds (s : proc_state) :
  (exists (v : mach_port_t) (s' : proc_state) (t : trace),
      run get_current_task_port s = Ok v s' t)
  /\ (forall (f : fault) (t : trace), run get_current_task_port s <> Crash f t).
Proof.
  split.
  - eexists _, _, _. apply run_get_current_task_port.
  - intros f t. rewrite run_get_current_task_port. discriminate.
Qed.

(** C7: the wrapper and a direct read of [mach_task_self_] are the same
    computation: the same value, state and events in every process state,
    and so the same behaviour of any facility the handle is passed on to. *)
Theorem wrapper_equals_direct_read (s : proc_state) :
  run get_current_task_port s = run mach_task_self_direct s
  /\ returned (run get_current_task_port s) = Some (mach_task_self_ s)
  /\ forall (A : Type) (facility : mach_port_t -> C A),
       run (h <- get_current_task_port ;; facility h) s
       = run (h <- mach_task_self_direct ;; facility h) s.
Proof.
  split; [reflexivity|]. split; [reflexivity|].
  intros A facility. unfold run, bind.
  change (get_current_task_port s) with (run get_current_task_port s).
  rewrite run_get_current_task_port. reflexivity.
Qed.

(** C8: two runs whose ambient handle is the same get the same result from
    the accessor, value and events, whatever else differs between their
    states. *)
Theorem accessor_deterministic (s1 s2 : proc_state) :
  mach_task_self_ s1 = mach_task_self_ s2 ->
  returned (run get_current_task_port s1) = returned (run get_current_task_port s2)
  /\ events (run get_current_task_port s1) = events (run get_current_task_port s2).
Proof.
  intros Heq. call_accessor_in_goal. rewrite Heq. split; reflexivity.
Qed.

Lemma accessor_deterministic_witness :
  mach_task_self_ (ProcState 259 ∅) = mach_task_self_ (ProcState 259 {[ 4096 := 7 ]})
  /\ returned (run get_current_task_port (ProcState 259 ∅))
     = returned (run get_current_task_port (ProcState 259 {[ 4096 := 7 ]}))
  /\ events (run get_current_task_port (ProcState 259 ∅))
     = events (run get_current_task_port (ProcState 259 {[ 4096 := 7 ]})).
Proof.
  split; [reflexivity|].
  apply (accessor_deterministic (ProcState 259 ∅) (ProcState 259 {[ 4096 := 7 ]})).
  reflexivity.
Defined.

(** C10: the accessor validates nothing. Whatever value [mach_task_self_]
    holds, the null name and the dead name included, the call returns exactly
    that value, with the state untouched; both degenerate names are invalid
    for the host and are passed on all the same. *)
Theorem accessor_passes_any_value (port_bits : Z) (v : mach_port_t) (m : gmap Z Z) :
  run get_current_task_port (ProcState v m)
  = Ok v (ProcState v m) [Read extern_mach_task_self_ v]
  /\ returned (run get_current_task_port (ProcState MACH_PORT_NULL m))
     = Some MACH_PORT_NULL
  /\ returned (run get_current_task_port (ProcState (MACH_PORT_DEAD port_bits) m))
     = Some (MACH_PORT_DEAD port_bits)
  /\ MACH_PORT_VALID port_bits MACH_PORT_NULL = false
  /\ MACH_PORT_VALID port_bits (MACH_PORT_DEAD port_bits) = false.
Proof.
  repeat split.
  unfold MACH_PORT_VALID. rewrite (Z.eqb_refl (MACH_PORT_DEAD port_bits)).
  apply andb_false_r.
Qed.

(** *** Calls over the lifetime of a process *)

Lemma store_cell_keeps_task_identity (a v : Z) :
  keeps_task_identity (store (cell a) v).
Proof.
  intros s u s' t. unfold run, store.
  destruct (memory s !! a); [|discriminate].
  intros [= _ <- _]. reflexivity.
Qed.

Lemma alloc_keeps_task_identity :
  keeps_task_identity (_ <- alloc ;; ret tt).
Proof.
  intros s u s' t. unfold run, bind, alloc, ret.
  intros [= _ <- _]. reflexivity.
Qed.

Lemma observed_all_ambient (acts : list action) :
  same_process acts ->
  forall s : proc_state, Forall (fun v => v = mach_task_self_ s) (observed acts s).
Proof.
  induction 1 as [|a acts Ha _ IH]; intros s; cbn [observed].
  - constructor.
  - destruct a as [|k].
    + rewrite run_get_current_task_port. constructor; [reflexivity | apply IH].
    + destruct (run k s) as [u s' t|f t] eqn:Hk; [|constructor].
      rewrite <- (Ha s u s' t Hk). apply IH.
Qed.

Lemma observed_repeated_calls (n : nat) (s : proc_state) :
  observed (replicate n call_accessor) s = replicate n (mach_task_self_ s).
Proof.
  induction n as [|n IH]; cbn [replicate observed]; [reflexivity|].
  rewrite run_get_current_task_port, IH. reflexivity.
Qed.

(** C1: within one process, that is as long as nothing the process does
    changes the ambient handle, every call of the accessor returns the value
    [mach_task_self_] held when the process started; so any two calls return
    the same value, and the first and the last call in particular. *)
Theorem accessor_stable_within_process (acts : list action) (s : proc_state) :
  same_process acts ->
  Forall (fun v => v = mach_task_self_ s) (observed acts s)
  /\ (forall v w : mach_port_t,
        In v (observed acts s) -> In w (observed acts s) -> v = w)
  /\ (forall v w : mach_port_t,
        head (observed acts s) = Some v -> last (observed acts s) = Some w -> v = w).
Proof.
  intros Hsame.
  pose proof (observed_all_ambient acts Hsame s) as Hall.
  rewrite Forall_forall in Hall.
  split; [rewrite Forall_forall; exact Hall|]. split.
  - intros v w Hv Hw.
    rewrite (Hall v), (Hall w); [reflexivity | |]; apply list_elem_of_In; assumption.
  - intros v w Hv Hw.
    rewrite (Hall v), (Hall w); [reflexivity | |].
    + apply last_Some_elem_of, Hw.
    + apply head_Some_elem_of, Hv.
Qed.

Lemma accessor_stable_witness :
  same_process [call_accessor; other (store (cell 4096) 1); call_accessor]
  /\ observed [call_accessor; other (store (cell 4096) 1); call_accessor]
       (ProcState 259 {[ 4096 := 7 ]}) = [259; 259]
  /\ (forall v w : mach_port_t,
        In v (observed [call_accessor; other (store (cell 4096) 1); call_accessor]
                (ProcState 259 {[ 4096 := 7 ]})) ->
        In w (observed [call_accessor; other (store (cell 4096) 1); call_accessor]
                (ProcState 259 {[ 4096 := 7 ]})) ->
        v = w).
Proof.
  assert (Hsame : same_process [call_accessor; other (store (cell 4096) 1); call_accessor]).
  { repeat constructor. apply store_cell_keeps_task_identity. }
  split; [exact Hsame|]. split; [reflexivity|].
  exact (proj1 (proj2 (accessor_stable_within_process
    [call_accessor; other (store (cell 4096) 1); call_accessor]
    (ProcState 259 {[ 4096 := 7 ]}) Hsame))).
Defined.

(** *** Validity of the handle *)




(** *** The public surface *)






(** *** Concurrent calls *)

Lemma thread_step_accessor (s : proc_state) :
  thread_step get_current_task_port_steps s
  = Some (Return (mach_task_self_ s), s, [Read extern_mach_task_self_ (mach_task_self_ s)]).
Proof. reflexivity. Qed.

Lemma calls_inv_init (s : proc_state) (n : nat) :
  calls_inv s (concurrent_calls s n).
Proof.
  split; [reflexivity|]. split; [|constructor].
  cbn [threads concurrent_calls]. apply Forall_replicate. left. reflexivity.
Qed.

Lemma calls_inv_step (s : proc_state) (sys sys' : system) :
  calls_inv s sys -> sched sys sys' -> calls_inv s sys'.
Proof.
  intros (Hshared & Hthreads & Hhist) [i Hstep].
  destruct Hstep as [sys p p' s' t Hlook Hts].
  assert (Hp : p = get_current_task_port_steps \/ p = Return (mach_task_self_ s)).
  { rewrite Forall_forall in Hthreads.
    apply Hthreads. eapply list_elem_of_lookup_2, Hlook. }
  destruct Hp as [-> | ->]; [|discriminate Hts].
  rewrite thread_step_accessor, Hshared in Hts.
  injection Hts as <- <- <-.
  split; [reflexivity|]. split; cbn [threads history].
  - apply Forall_insert; [exact Hthreads | right; reflexivity].
  - apply Forall_app. split; [exact Hhist|]. repeat constructor.
Qed.

Lemma calls_inv_reachable (s : proc_state) (n : nat) (sys : system) :
  rtc sched (concurrent_calls s n) sys -> calls_inv s sys.
Proof.
  revert sys. apply rtc_ind_r.
  - apply calls_inv_init.
  - intros sys sys' _ Hstep IH. exact (calls_inv_step s sys sys' IH Hstep).
Qed.

Lemma reads_race_free (h : list (nat * event)) :
  Forall (fun x => is_read (snd x) = true) h -> race_free h.
Proof.
  intros Hreads x y Hx Hy. rewrite Forall_forall in Hreads.
  unfold conflict.
  rewrite (Hreads x), (Hreads y) by (apply list_elem_of_In; assumption).
  apply andb_false_r.
Qed.

(** C9: any number of threads of one process may call the accessor at once.
    Whatever the order in which the scheduler lets them step, the shared
    state stays the state they started from, every thread that has returned
    holds the same value (the ambient handle), no two events of the run race,
    and a thread that has not returned yet can always take its step, whatever
    the other threads have done or not done. *)
Theorem concurrent_calls_safe (s : proc_state) (n : nat) (sys : system) :
  rtc sched (concurrent_calls s n) sys ->
  shared sys = s
  /\ (forall (i j : nat) (p q : prog mach_port_t) (v w : mach_port_t),
        threads sys !! i = Some p -> result_of p = Some v ->
        threads sys !! j = Some q -> result_of q = Some w ->
        v = w /\ v = mach_task_self_ s)
  /\ race_free (history sys)
  /\ (forall (i : nat) (p : prog mach_port_t),
        threads sys !! i = Some p -> result_of p = None ->
        exists sys' : system,
          step i sys sys'
          /\ threads sys' !! i = Some (Return (mach_task_self_ s))
          /\ shared sys' = s).
Proof.
  intros Hrun. destruct (calls_inv_reachable s n sys Hrun) as (Hshared & Hthreads & Hhist).
  assert (Hcases : forall (i : nat) (p : prog mach_port_t), threads sys !! i = Some p ->
            p = get_current_task_port_steps \/ p = Return (mach_task_self_ s)).
  { intros i p Hlook. rewrite Forall_forall in Hthreads.
    apply Hthreads. eapply list_elem_of_lookup_2, Hlook. }
  split; [exact Hshared|]. split; [|split; [apply reads_race_free, Hhist|]].
  - intros i j p q v w Hi Hv Hj Hw.
    destruct (Hcases i p Hi) as [-> | ->]; [discriminate Hv|].
    destruct (Hcases j q Hj) as [-> | ->]; [discriminate Hw|].
    injection Hv as <-. injection Hw as <-. split; reflexivity.
  - intros i p Hi Hnone.
    destruct (Hcases i p Hi) as [-> | ->]; [|discriminate Hnone].
    eexists. split; [|split].
    + eapply step_thread; [exact Hi | apply thread_step_accessor].
    + cbn [threads]. rewrite Hshared.
      apply list_lookup_insert_eq. eapply lookup_lt_Some, Hi.
    + cbn [shared]. exact Hshared.
Qed.

Lemma concurrent_calls_witness :
  rtc sched (concurrent_calls (ProcState 259 ∅) 2)
    (System (ProcState 259 ∅) [Return 259; Return 259]
       [(1%nat, Read extern_mach_task_self_ 259); (0%nat, Read extern_mach_task_self_ 259)])
  /\ race_free
       [(1%nat, Read extern_mach_task_self_ 259); (0%nat, Read extern_mach_task_self_ 259)].
Proof.
  assert (Hrun : rtc sched (concurrent_calls (ProcState 259 ∅) 2)
    (System (ProcState 259 ∅) [Return 259; Return 259]
       [(1%nat, Read extern_mach_task_self_ 259); (0%nat, Read extern_mach_task_self_ 259)])).
  { eapply rtc_l.
    { exists 1%nat. eapply step_thread; reflexivity. }
    eapply rtc_l.
    { exists 0%nat. eapply step_thread; reflexivity. }
    apply rtc_refl. }
  split; [exact Hrun|].
  exact (proj1 (proj2 (proj2 (concurrent_calls_safe (ProcState 259 ∅) 2 _ Hrun)))).
Defined.

(** *** The include guard of MachTaskSelf.h *)

Lemma include_times_guarded (host_decl : Type)
    (mach_mach_h : gset string -> list host_decl * gset string)
    (n : nat) (macros : gset string) :
  guard_macro ∈ macros ->
  include_times host_decl mach_mach_h n macros = ([], macros).
Proof.
  intros Hguard. induction n as [|n IH]; cbn [include_times]; [reflexivity|].
  unfold include_MachTaskSelf_h. rewrite decide_True by exact Hguard.
  rewrite IH. reflexivity.
Qed.

Lemma include_defines_guard (host_decl : Type)
    (mach_mach_h : gset string -> list host_decl * gset string)
    (macros : gset string) :
  keeps_guard host_decl mach_mach_h ->
  guard_macro ∈ snd (include_MachTaskSelf_h host_decl mach_mach_h macros).
Proof.
  intros Hkeeps. unfold include_MachTaskSelf_h.
  destruct (decide (guard_macro ∈ macros)) as [Hin|Hout]; [exact Hin|].
  pose proof (Hkeeps ({[ guard_macro ]} ∪ macros)) as Hafter.
  destruct (mach_mach_h ({[ guard_macro ]} ∪ macros)) as [decls macros'].
  apply Hafter. set_solver.
Qed.


(** X1: the include guard makes the header idempotent. Provided the host's
    <mach/mach.h> leaves the guard macro defined, including MachTaskSelf.h
    any number of times in a row gives the declarations and the macros of
    one inclusion. *)
Theorem include_guard_idempotent (host_decl : Type)
    (mach_mach_h : gset string -> list host_decl * gset string)
    (n : nat) (macros : gset string) :
  keeps_guard host_decl mach_mach_h ->
  include_times host_decl mach_mach_h (S n) macros
  = include_MachTaskSelf_h host_decl mach_mach_h macros.
Proof.
  intros Hkeeps. cbn [include_times].
  pose proof (include_defines_guard host_decl mach_mach_h macros Hkeeps) as Hguard.
  destruct (include_MachTaskSelf_h host_decl mach_mach_h macros) as [d1 m1].
  rewrite (include_times_guarded host_decl mach_mach_h n m1 Hguard).
  rewrite app_nil_r. reflexivity.
Qed.

Lemma host_keeps_guard_example :
  keeps_guard unit (fun macros => ([tt], {[ "_MACH_H_"%string ]} ∪ macros)).
Proof. intros macros Hin. cbn. set_solver. Qed.

Lemma include_guard_idempotent_witness :
  keeps_guard unit (fun macros => ([tt], {[ "_MACH_H_"%string ]} ∪ macros))
  /\ include_times unit (fun macros => ([tt], {[ "_MACH_H_"%string ]} ∪ macros)) 3 ∅
     = include_MachTaskSelf_h unit (fun macros => ([tt], {[ "_MACH_H_"%string ]} ∪ macros)) ∅.
Proof.
  split; [exact host_keeps_guard_example|].
  exact (include_guard_idempotent unit
           (fun macros => ([tt], {[ "_MACH_H_"%string ]} ∪ macros)) 2 ∅
           host_keeps_guard_example).
Defined.



(** *** The call among other code *)

(** X3: a call returns the value [mach_task_self_] holds when the call is
    made. After any code that ends normally, the call returns the handle of
    the state that code left, not one read earlier: when the object has been
    assigned in between, the new value comes back. *)
Theorem accessor_reads_value_current_at_call
    (k : C unit) (s s' : proc_state) (u : unit) (t : trace) :
  run k s = Ok u s' t ->
  run (_ <- k ;; get_current_task_port) s
  = Ok (mach_task_self_ s') s' (t ++ [Read extern_mach_task_self_ (mach_task_self_ s')]).
Proof.
  unfold run at 1 2. intros Hk. unfold bind at 1. rewrite Hk.
  change (get_current_task_port s') with (run get_current_task_port s').
  rewrite run_get_current_task_port. reflexivity.
Qed.

Lemma accessor_reads_value_current_witness :
  run (store extern_mach_task_self_ 515) (ProcState 259 ∅)
  = Ok tt (ProcState 515 ∅) [Write extern_mach_task_self_ 515]
  /\ run (_ <- store extern_mach_task_self_ 515 ;; get_current_task_port) (ProcState 259 ∅)
     = Ok 515 (ProcState 515 ∅)
         ([Write extern_mach_task_self_ 515] ++ [Read extern_mach_task_self_ 515]).
Proof.
  split; [reflexivity|].
  exact (accessor_reads_value_current_at_call (store extern_mach_task_self_ 515)
           (ProcState 259 ∅) (ProcState 515 ∅) tt [Write extern_mach_task_self_ 515]
           eq_refl).
Defined.

(** X4: a call may be moved across code that keeps the task identity.
    Calling first and then running the code gives the same value (or the
    same absence of one, when the code crashes) and the same final state as
    running the code first and calling afterwards. *)
Theorem accessor_commutes_with_identity_keeping_code (k : C unit) (s : proc_state) :
  keeps_task_identity k ->
  returned (run (x <- get_current_task_port ;; _ <- k ;; ret x) s)
  = returned (run (_ <- k ;; get_current_task_port) s)
  /\ final_state (run (x <- get_current_task_port ;; _ <- k ;; ret x) s)
     = final_state (run (_ <- k ;; get_current_task_port) s).
Proof.
  intros Hkeeps. unfold run, bind at 1 3 4 6.
  change (get_current_task_port s) with (run get_current_task_port s).
  rewrite run_get_current_task_port. unfold bind at 1 2.
  destruct (k s) as [u s' t|f t] eqn:Hk; [|split; reflexivity].
  change (get_current_task_port s') with (run get_current_task_port s').
  rewrite run_get_current_task_port. cbn.
  rewrite (Hkeeps s u s' t Hk). split; reflexivity.
Qed.

Lemma accessor_commutes_witness :
  keeps_task_identity (store (cell 4096) 1)
  /\ returned (run (x <- get_current_task_port ;; _ <- store (cell 4096) 1 ;; ret x)
                 (ProcState 259 {[ 4096 := 7 ]}))
     = returned (run (_ <- store (cell 4096) 1 ;; get_current_task_port)
                   (ProcState 259 {[ 4096 := 7 ]})).
Proof.
  split; [apply store_cell_keeps_task_identity|].
  exact (proj1 (accessor_commutes_with_identity_keeping_code (store (cell 4096) 1)
                  (ProcState 259 {[ 4096 := 7 ]})
                  (store_cell_keeps_task_identity 4096 1))).
Defined.

(** *** How many steps concurrent calls take *)

Lemma steps_inv_init (s : proc_state) (n : nat) :
  steps_inv s n 0 (concurrent_calls s n).
Proof.
  split; [apply calls_inv_init|]. cbn [threads history concurrent_calls].
  split; [apply length_replicate|]. split; [reflexivity|].
  split; [constructor|]. intros i. cbn [map]. split.
  - intros Hin. apply elem_of_nil in Hin. destruct Hin.
  - intros [v Hv]. apply lookup_replicate in Hv. destruct Hv as [Hv _].
    discriminate Hv.
Qed.

Lemma steps_inv_step (s : proc_state) (n k : nat) (sys sys' : system) :
  steps_inv s n k sys -> sched sys sys' -> steps_inv s n (S k) sys'.
Proof.
  intros (Hinv & Hlen & Hhist & Hnodup & Hiff) Hsched.
  split; [exact (calls_inv_step s sys sys' Hinv Hsched)|].
  destruct Hinv as (Hshared & Hthreads & _).
  destruct Hsched as [i Hstep].
  destruct Hstep as [sys p p' s' t Hlook Hts].
  assert (Hp : p = get_current_task_port_steps \/ p = Return (mach_task_self_ s)).
  { rewrite Forall_forall in Hthreads.
    apply Hthreads. eapply list_elem_of_lookup_2, Hlook. }
  destruct Hp as [-> | ->]; [|discriminate Hts].
  rewrite thread_step_accessor in Hts. injection Hts as <- <- <-.
  assert (Hfresh : i ∉ map fst (history sys)).
  { intros Hin. apply Hiff in Hin. destruct Hin as [v Hv].
    rewrite Hlook in Hv. discriminate Hv. }
  assert (Hi : (i < length (threads sys))%nat) by (eapply lookup_lt_Some, Hlook).
  cbn [threads history]. rewrite length_insert, length_app, map_app. cbn [map length fst].
  split; [exact Hlen|]. split; [lia|]. split.
  - apply NoDup_app. split; [exact Hnodup|]. split; [|apply NoDup_singleton].
    intros j Hj Hji. apply list_elem_of_singleton in Hji. subst j. exact (Hfresh Hj).
  - intros j. rewrite elem_of_app, list_elem_of_singleton.
    destruct (decide (j = i)) as [->|Hne].
    + rewrite list_lookup_insert_eq by exact Hi. split; [eauto | intros _; right; reflexivity].
    + rewrite list_lookup_insert_ne by congruence. rewrite <- Hiff. tauto.
Qed.

Lemma steps_inv_nsteps (s : proc_state) (n k : nat) (sys : system) :
  nsteps sched k (concurrent_calls s n) sys -> steps_inv s n k sys.
Proof.
  revert sys. induction k as [|k IH]; intros sys Hrun.
  - inversion Hrun; subst. apply steps_inv_init.
  - apply nsteps_inv_r in Hrun. destruct Hrun as (mid & Hrun & Hlast).
    exact (steps_inv_step s n k mid sys (IH mid Hrun) Hlast).
Qed.

Lemma NoDup_below (l : list nat) (n : nat) :
  NoDup l -> (forall i : nat, i ∈ l -> (i < n)%nat) ->
  (length l <= n)%nat
  /\ (length l = n -> forall i : nat, (i < n)%nat -> i ∈ l).
Proof.
  intros Hnodup Hbelow.
  assert (Hsub : l ⊆+ seq 0 n).
  { apply NoDup_submseteq; [exact Hnodup|].
    intros i Hi. apply elem_of_seq. specialize (Hbelow i Hi). lia. }
  split.
  - apply submseteq_length in Hsub. rewrite length_seq in Hsub. exact Hsub.
  - intros Hlen i Hi.
    assert (Hperm : l ≡ₚ seq 0 n).
    { apply submseteq_length_Permutation; [exact Hsub|]. rewrite length_seq. lia. }
    rewrite Hperm. apply elem_of_seq. lia.
Qed.

(** X5: concurrent calls finish, and cost one read each. From [n] threads
    about to call the accessor, a run of [k] scheduler steps has [k <= n];
    its history holds exactly [k] events, no two of them by the same thread;
    and once [n] steps are taken every thread has returned the ambient
    handle. *)
Theorem concurrent_calls_one_step_each (s : proc_state) (n k : nat) (sys : system) :
  nsteps sched k (concurrent_calls s n) sys ->
  (k <= n)%nat
  /\ length (history sys) = k
  /\ NoDup (map fst (history sys))
  /\ (k = n ->
      Forall (fun p => result_of p = Some (mach_task_self_ s)) (threads sys)).
Proof.
  intros Hrun.
  destruct (steps_inv_nsteps s n k sys Hrun)
    as ((Hshared & Hthreads & _) & Hlen & Hhist & Hnodup & Hiff).
  assert (Hbelow : forall i : nat, i ∈ map fst (history sys) -> (i < n)%nat).
  { intros i Hi. apply Hiff in Hi. destruct Hi as [v Hv].
    rewrite <- Hlen. eapply lookup_lt_Some, Hv. }
  destruct (NoDup_below (map fst (history sys)) n Hnodup Hbelow) as [Hle Hall].
  rewrite length_map, Hhist in Hle, Hall.
  split; [exact Hle|]. split; [exact Hhist|]. split; [exact Hnodup|].
  intros Hkn. apply Forall_lookup. intros i p Hp.
  assert (Hi : (i < n)%nat) by (rewrite <- Hlen; eapply lookup_lt_Some, Hp).
  destruct (proj1 (Hiff i) (Hall Hkn i Hi)) as [v Hv].
  rewrite Hp in Hv. injection Hv as ->.
  rewrite Forall_forall in Hthreads.
  destruct (Hthreads (Return v)) as [Hsteps | Hret].
  - eapply list_elem_of_lookup_2, Hp.
  - discriminate Hsteps.
  - injection Hret as ->. reflexivity.
Qed.

Lemma concurrent_calls_one_step_each_witness :
  nsteps sched 2 (concurrent_calls (ProcState 259 ∅) 2)
    (System (ProcState 259 ∅) [Return 259; Return 259]
       [(0%nat, Read extern_mach_task_self_ 259); (1%nat, Read extern_mach_task_self_ 259)])
  /\ ((2 = 2)%nat ->
      Forall (fun p => result_of p = Some 259) [Return 259; Return 259]).
Proof.
  assert (Hrun : nsteps sched 2 (concurrent_calls (ProcState 259 ∅) 2)
    (System (ProcState 259 ∅) [Return 259; Return 259]
       [(0%nat, Read extern_mach_task_self_ 259); (1%nat, Read extern_mach_task_self_ 259)])).
  { eapply nsteps_l.
    { exists 0%nat. eapply step_thread; reflexivity. }
    eapply nsteps_l.
    { exists 1%nat. eapply step_thread; reflexivity. }
    apply nsteps_O. }
  split; [exact Hrun|].
  exact (proj2 (proj2 (proj2
    (concurrent_calls_one_step_each (ProcState 259 ∅) 2 2 _ Hrun)))).
Defined.
